(** * Item store service (main.py): a shallow embedding and its CRUD contract

    The service keeps one module-level dictionary, [fake_db], and five
    handlers that read or mutate it.  The handlers are embedded as
    computations in a state-and-exception monad over the dictionary; the
    route decorators, which fix the success status of each endpoint, are
    embedded as [app].  No handler contains an [await], so each one runs
    to completion on the event loop: a sequential model is exact. *)

From Stdlib Require Import NArith Ascii String.
From Stdlib Require Import Floats.PrimFloat.
From stdpp Require Import gmap strings list fin_maps.

Local Open Scope string_scope.
Local Open Scope list_scope.

(** ** The two pydantic models *)

(** [class ItemCreate(BaseModel)]: the validated request body. *)
Module ItemCreate.
Record t : Type := make {
  name : string;
  description : option string;   (* Optional[str] = None *)
  price : float;
  tax : option float             (* Optional[float] = None *)
}.
End ItemCreate.

(** [class Item(BaseModel)]: a stored record. *)
Module Item.
Record t : Type := make {
  id : string;
  name : string;
  description : option string;
  price : float;
  tax : option float
}.
End Item.

(** [Item(id=item_id, **item.dict())] *)
Definition Item_from (item_id : string) (item : ItemCreate.t) : Item.t :=
  {| Item.id := item_id;
     Item.name := ItemCreate.name item;
     Item.description := ItemCreate.description item;
     Item.price := ItemCreate.price item;
     Item.tax := ItemCreate.tax item |}.

(** ** Python's [uuid] module, as far as [str(uuid.uuid4())] uses it

    [uuid4()] is [UUID(bytes=os.urandom(16), version=4)].  The sixteen random
    bytes are an input of the model, given as the integer they encode
    (big-endian, hence below [2 ^ 128]; a larger argument is reduced). *)
Module uuid.

(** [UUID.__init__] with [version=4]: the variant and version bits are
    forced, the other 122 bits are the random ones. *)
Definition uuid4 (urandom : N) : N :=
  let int := (urandom mod 2 ^ 128)%N in
  let int := N.ldiff int (N.shiftl 0xc000 48) in
  let int := N.lor int (N.shiftl 0x8000 48) in
  let int := N.ldiff int (N.shiftl 0xf000 64) in
  N.lor int (N.shiftl 4 76).

Definition hexdigit (d : N) : ascii :=
  match String.get (N.to_nat d) "0123456789abcdef" with
  | Some c => c
  | None => "0"%char
  end.

(** ['%0<width>x' % n], for [n] below [16 ^ width]. *)
Fixpoint hex (width : nat) (n : N) : string :=
  match width with
  | O => ""
  | S w => hex w (n / 16)%N +:+ String (hexdigit (n mod 16)%N) ""
  end.

(** [UUID.__str__]: the 32 hexadecimal digits in groups of 8-4-4-4-12. *)
Definition str (int : N) : string :=
  let h := hex 32 int in
  substring 0 8 h +:+ "-" +:+ substring 8 4 h +:+ "-" +:+
  substring 12 4 h +:+ "-" +:+ substring 16 4 h +:+ "-" +:+
  substring 20 12 h.

End uuid.

(** ** Exceptions, outcomes and the handler monad *)

(** [fastapi.HTTPException(status_code, detail)] and the [KeyError] a
    subscript or [del] on a missing key raises. *)
Inductive exn : Type :=
  | HTTPException (status_code : nat) (detail : string)
  | KeyError (key : string).

Inductive outcome (A : Type) : Type :=
  | Return (a : A)
  | Raise (e : exn).
Arguments Return {A} a.
Arguments Raise {A} e.

(** A handler reads and writes the global [fake_db : Dict[str, Item]]; what
    it wrote before raising stays written. *)
Definition Handler (A : Type) : Type :=
  gmap string Item.t → outcome A * gmap string Item.t.

#[global] Instance Handler_ret : MRet Handler :=
  λ A a fake_db, (Return a, fake_db).

#[global] Instance Handler_bind : MBind Handler :=
  λ A B k m fake_db,
    match m fake_db with
    | (Return a, fake_db') => k a fake_db'
    | (Raise e, fake_db') => (Raise e, fake_db')
    end.

Definition raise {A : Type} (e : exn) : Handler A :=
  λ fake_db, (Raise e, fake_db).

(** [key in fake_db] *)
Definition contains (key : string) : Handler bool :=
  λ fake_db, (Return (bool_decide (is_Some (fake_db !! key))), fake_db).

(** [fake_db[key]] *)
Definition getitem (key : string) : Handler Item.t :=
  λ fake_db,
    match fake_db !! key with
    | Some v => (Return v, fake_db)
    | None => (Raise (KeyError key), fake_db)
    end.

(** [fake_db[key] = value] *)
Definition setitem (key : string) (value : Item.t) : Handler unit :=
  λ fake_db, (Return tt, <[key := value]> fake_db).

(** [del fake_db[key]] *)
Definition delitem (key : string) : Handler unit :=
  λ fake_db,
    match fake_db !! key with
    | Some _ => (Return tt, delete key fake_db)
    | None => (Raise (KeyError key), fake_db)
    end.

(** [list(fake_db.values())].  A Python dict lists its values in insertion
    order; the finite map lists them in an order of its own, so results
    about this list are stated up to permutation. *)
Definition values : Handler (list Item.t) :=
  λ fake_db, (Return ((map_to_list fake_db).*2), fake_db).

(** ** Status codes ([fastapi.status]) *)

Definition HTTP_200_OK : nat := 200.
Definition HTTP_201_CREATED : nat := 201.
Definition HTTP_204_NO_CONTENT : nat := 204.
Definition HTTP_404_NOT_FOUND : nat := 404.
Definition HTTP_500_INTERNAL_SERVER_ERROR : nat := 500.

(** ** The five handlers *)

(** [uuid.uuid4()] draws [urandom] during the call. *)
Definition create_item (urandom : N) (item : ItemCreate.t) : Handler Item.t :=
  let item_id := uuid.str (uuid.uuid4 urandom) in
  let new_item := Item_from item_id item in
  setitem item_id new_item ;;
  mret new_item.

Definition read_items : Handler (list Item.t) :=
  values.

Definition read_item (item_id : string) : Handler Item.t :=
  present ← contains item_id;
  if negb present
  then raise (HTTPException HTTP_404_NOT_FOUND "Elemento no encontrado")
  else getitem item_id.

Definition update_item (item_id : string) (item : ItemCreate.t) : Handler Item.t :=
  present ← contains item_id;
  if negb present
  then raise (HTTPException HTTP_404_NOT_FOUND "Elemento no encontrado")
  else
    let updated_item := Item_from item_id item in
    setitem item_id updated_item ;;
    mret updated_item.

Definition delete_item (item_id : string) : Handler (list (string * string)) :=
  present ← contains item_id;
  if negb present
  then raise (HTTPException HTTP_404_NOT_FOUND "Elemento no encontrado")
  else
    delitem item_id ;;
    mret [("message", "Elemento eliminado exitosamente")].

(** ** The routes

    A route answers with the status code of its decorator when the handler
    returns (200 unless [status_code=] says otherwise), with the exception's
    own code and detail when it raises [HTTPException], and with 500 when
    any other exception escapes.  [content] is the value the handler handed
    back for serialization; what the framework then writes on the wire is
    [body_sent] below. *)

Inductive Body : Type :=
  | JItem (item : Item.t)                       (* response_model=Item *)
  | JItems (items : list Item.t)                (* response_model=List[Item] *)
  | JObject (fields : list (string * string))   (* a returned dict *)
  | JDetail (detail : string)                   (* {"detail": detail} *)
  | JServerError.

Record Response : Type := mkResponse {
  status_code : nat;
  content : Body
}.

Definition route {A : Type} (success : nat) (encode : A → Body)
    (endpoint : Handler A) (fake_db : gmap string Item.t)
    : Response * gmap string Item.t :=
  match endpoint fake_db with
  | (Return a, fake_db') => (mkResponse success (encode a), fake_db')
  | (Raise (HTTPException code detail), fake_db') =>
      (mkResponse code (JDetail detail), fake_db')
  | (Raise (KeyError _), fake_db') =>
      (mkResponse HTTP_500_INTERNAL_SERVER_ERROR JServerError, fake_db')
  end.

(** A request as the application sees it: method, path parameter, validated
    body, and for [POST] the random bytes [uuid4] draws while serving it. *)
Inductive Request : Type :=
  | POST_items (urandom : N) (item : ItemCreate.t)
  | GET_items
  | GET_item (item_id : string)
  | PUT_item (item_id : string) (item : ItemCreate.t)
  | DELETE_item (item_id : string).

Definition app (req : Request) : gmap string Item.t → Response * gmap string Item.t :=
  match req with
  | POST_items urandom item => route HTTP_201_CREATED JItem (create_item urandom item)
  | GET_items => route HTTP_200_OK JItems read_items
  | GET_item item_id => route HTTP_200_OK JItem (read_item item_id)
  | PUT_item item_id item => route HTTP_200_OK JItem (update_item item_id item)
  | DELETE_item item_id => route HTTP_204_NO_CONTENT JObject (delete_item item_id)
  end.

(** The store after serving a sequence of requests, oldest first. *)
Definition serve (history : list Request) (fake_db : gmap string Item.t)
    : gmap string Item.t :=
  foldl (λ db req, (app req db).2) fake_db history.

(** The identifier [create_item] assigns when [uuid4] draws [urandom]. *)
Definition new_id (urandom : N) : string := uuid.str (uuid.uuid4 urandom).

(** The UUIDs [uuid4] returned while serving [history], oldest first. *)
Definition drawn (history : list Request) : list N :=
  flat_map (λ req, match req with
                   | POST_items urandom _ => [uuid.uuid4 urandom]
                   | _ => []
                   end) history.

(** The identifiers handed out while serving [history], oldest first. *)
Definition issued (history : list Request) : list string :=
  flat_map (λ req, match req with
                   | POST_items urandom _ => [new_id urandom]
                   | _ => []
                   end) history.

(** The records the [POST]s of [history] answered with, oldest first. *)
Definition created (history : list Request) : list Item.t :=
  flat_map (λ req, match req with
                   | POST_items urandom item => [Item_from (new_id urandom) item]
                   | _ => []
                   end) history.

Definition is_POST (req : Request) : bool :=
  match req with POST_items _ _ => true | _ => false end.

(** How many creations [history] holds. *)
Definition POSTs (history : list Request) : nat :=
  length (List.filter is_POST history).

Definition is_DELETE (req : Request) : bool :=
  match req with DELETE_item _ => true | _ => false end.

Definition is_PUT (req : Request) : bool :=
  match req with PUT_item _ _ => true | _ => false end.

(** Every record is filed under its own [id]. *)
Definition keyed (fake_db : gmap string Item.t) : Prop :=
  ∀ key item, fake_db !! key = Some item → Item.id item = key.

(** The stores the service can be in: it starts empty and changes only by
    serving requests. *)
Definition reachable (fake_db : gmap string Item.t) : Prop :=
  ∃ history, fake_db = serve history ∅.

Definition not_found : Response :=
  mkResponse HTTP_404_NOT_FOUND (JDetail "Elemento no encontrado").

(** ** What goes on the wire

    FastAPI, not main.py, decides whether a response carries a body
    ([fastapi.utils.is_body_allowed_for_status_code]): none below 200 nor
    with 204, 205 or 304.  The route handler blanks the body of such a
    response whatever the endpoint returned, and the handler of
    [HTTPException] answers such a code without the detail. *)

Definition is_body_allowed_for_status_code (status : nat) : bool :=
  negb ((status <? 200) || (status =? 204) || (status =? 205)
        || (status =? 304))%nat.

(** The body the caller receives, if any. *)
Definition body_sent (response : Response) : option Body :=
  if is_body_allowed_for_status_code (status_code response)
  then Some (content response)
  else None.

(** ** Reading hexadecimal digits back (used in the proofs only) *)

Definition unhexdigit (c : ascii) : N :=
  match index 0 (String c "") "0123456789abcdef" with
  | Some i => N.of_nat i
  | None => 0
  end.

(** [int(s, 16)], continuing from [acc]. *)
Fixpoint unhex (acc : N) (s : string) : N :=
  match s with
  | "" => acc
  | String c s' => unhex (acc * 16 + unhexdigit c) s'
  end.

(** Sample payloads. *)
Definition pen : ItemCreate.t :=
  ItemCreate.make "Pen" (Some "old") 1.5%float (Some 0.25%float).
Definition pen2 : ItemCreate.t :=
  ItemCreate.make "Pen2" None 2%float None.
Definition pen_again : ItemCreate.t :=
  ItemCreate.make "Pen" None 3%float None.

(** The [item_id] path parameter of a request, if its route has one. *)
Definition path_id (req : Request) : option string :=
  match req with
  | GET_item item_id | PUT_item item_id _ | DELETE_item item_id => Some item_id
  | POST_items _ _ | GET_items => None
  end.

(** The key under which a request's handler assigns or deletes, if it has
    such a statement: [fake_db[item_id] = ...] or [del fake_db[item_id]]. *)
Definition target (req : Request) : option string :=
  match req with
  | POST_items urandom _ => Some (new_id urandom)
  | PUT_item item_id _ | DELETE_item item_id => Some item_id
  | GET_items | GET_item _ => None
  end.

(** * Proofs *)

(** ** What each handler does, case by case *)

Ltac run_handler :=
  unfold create_item, read_items, read_item, update_item, delete_item,
    mbind, mret, Handler_bind, Handler_ret, contains, getitem, setitem,
    delitem, values, raise; simpl.

Lemma create_item_eq urandom item (db : gmap string Item.t) :
  create_item urandom item db =
    (Return (Item_from (new_id urandom) item),
     <[new_id urandom := Item_from (new_id urandom) item]> db).
Proof. reflexivity. Qed.

Lemma read_items_eq (db : gmap string Item.t) :
  read_items db = (Return ((map_to_list db).*2), db).
Proof. reflexivity. Qed.

Lemma read_item_Some item_id stored (db : gmap string Item.t) :
  db !! item_id = Some stored →
  read_item item_id db = (Return stored, db).
Proof.
  intros Hin. run_handler.
  rewrite bool_decide_eq_true_2 by (rewrite Hin; eauto).
  simpl. by rewrite Hin.
Qed.

Lemma read_item_None item_id (db : gmap string Item.t) :
  db !! item_id = None →
  read_item item_id db =
    (Raise (HTTPException HTTP_404_NOT_FOUND "Elemento no encontrado"), db).
Proof.
  intros Hout. run_handler.
  rewrite bool_decide_eq_false_2; [done|].
  rewrite Hout. by intros [? ?].
Qed.

Lemma update_item_Some item_id item (db : gmap string Item.t) :
  is_Some (db !! item_id) →
  update_item item_id item db =
    (Return (Item_from item_id item), <[item_id := Item_from item_id item]> db).
Proof.
  intros Hin. run_handler. by rewrite bool_decide_eq_true_2.
Qed.

Lemma update_item_None item_id item (db : gmap string Item.t) :
  db !! item_id = None →
  update_item item_id item db =
    (Raise (HTTPException HTTP_404_NOT_FOUND "Elemento no encontrado"), db).
Proof.
  intros Hout. run_handler.
  rewrite bool_decide_eq_false_2; [done|].
  rewrite Hout. by intros [? ?].
Qed.

Lemma delete_item_Some item_id (db : gmap string Item.t) :
  is_Some (db !! item_id) →
  delete_item item_id db =
    (Return [("message", "Elemento eliminado exitosamente")], delete item_id db).
Proof.
  intros Hin. run_handler. rewrite bool_decide_eq_true_2 by done.
  simpl. by destruct Hin as [stored ->].
Qed.

Lemma delete_item_None item_id (db : gmap string Item.t) :
  db !! item_id = None →
  delete_item item_id db =
    (Raise (HTTPException HTTP_404_NOT_FOUND "Elemento no encontrado"), db).
Proof.
  intros Hout. run_handler.
  rewrite bool_decide_eq_false_2; [done|].
  rewrite Hout. by intros [? ?].
Qed.

(** ** What each route answers *)

Lemma POST_items_eq urandom item (db : gmap string Item.t) :
  app (POST_items urandom item) db =
    (mkResponse HTTP_201_CREATED (JItem (Item_from (new_id urandom) item)),
     <[new_id urandom := Item_from (new_id urandom) item]> db).
Proof. reflexivity. Qed.

Lemma GET_items_eq (db : gmap string Item.t) :
  app GET_items db = (mkResponse HTTP_200_OK (JItems ((map_to_list db).*2)), db).
Proof. reflexivity. Qed.

Lemma GET_item_Some item_id stored (db : gmap string Item.t) :
  db !! item_id = Some stored →
  app (GET_item item_id) db = (mkResponse HTTP_200_OK (JItem stored), db).
Proof. intros Hin. simpl. unfold route. by rewrite (read_item_Some _ stored). Qed.

Lemma GET_item_None item_id (db : gmap string Item.t) :
  db !! item_id = None →
  app (GET_item item_id) db = (not_found, db).
Proof. intros Hout. simpl. unfold route. by rewrite read_item_None. Qed.

Lemma PUT_item_Some item_id item (db : gmap string Item.t) :
  is_Some (db !! item_id) →
  app (PUT_item item_id item) db =
    (mkResponse HTTP_200_OK (JItem (Item_from item_id item)),
     <[item_id := Item_from item_id item]> db).
Proof. intros Hin. simpl. unfold route. by rewrite update_item_Some. Qed.

Lemma PUT_item_None item_id item (db : gmap string Item.t) :
  db !! item_id = None →
  app (PUT_item item_id item) db = (not_found, db).
Proof. intros Hout. simpl. unfold route. by rewrite update_item_None. Qed.

Lemma DELETE_item_Some item_id (db : gmap string Item.t) :
  is_Some (db !! item_id) →
  app (DELETE_item item_id) db =
    (mkResponse HTTP_204_NO_CONTENT
       (JObject [("message", "Elemento eliminado exitosamente")]),
     delete item_id db).
Proof. intros Hin. simpl. unfold route. by rewrite delete_item_Some. Qed.

Lemma DELETE_item_None item_id (db : gmap string Item.t) :
  db !! item_id = None →
  app (DELETE_item item_id) db = (not_found, db).
Proof. intros Hout. simpl. unfold route. by rewrite delete_item_None. Qed.

(** The store a request leaves behind. *)
Lemma app_store req (db : gmap string Item.t) :
  (app req db).2 =
    match req with
    | POST_items urandom item =>
        <[new_id urandom := Item_from (new_id urandom) item]> db
    | PUT_item item_id item =>
        if db !! item_id is Some _ then <[item_id := Item_from item_id item]> db else db
    | DELETE_item item_id => delete item_id db
    | GET_items | GET_item _ => db
    end.
Proof.
  destruct req as [urandom item| |item_id|item_id item|item_id].
  - by rewrite POST_items_eq.
  - by rewrite GET_items_eq.
  - destruct (db !! item_id) as [stored|] eqn:Hl.
    + by rewrite (GET_item_Some _ stored).
    + by rewrite GET_item_None.
  - destruct (db !! item_id) as [stored|] eqn:Hl.
    + by rewrite PUT_item_Some by (rewrite Hl; eauto).
    + by rewrite PUT_item_None.
  - destruct (db !! item_id) as [stored|] eqn:Hl.
    + by rewrite DELETE_item_Some by (rewrite Hl; eauto).
    + rewrite DELETE_item_None by done. simpl. by rewrite delete_id.
Qed.

Lemma serve_snoc history req (db : gmap string Item.t) :
  serve (history ++ [req]) db = (app req (serve history db)).2.
Proof. unfold serve. by rewrite foldl_app. Qed.

Lemma issued_snoc history req :
  issued (history ++ [req]) = issued history ++ issued [req].
Proof. unfold issued. by rewrite flat_map_app. Qed.

Lemma created_snoc history req :
  created (history ++ [req]) = created history ++ created [req].
Proof. unfold created. by rewrite flat_map_app. Qed.

(** ** Invariants of the store *)

Lemma keyed_empty : keyed ∅.
Proof. intros key item Hl. by rewrite lookup_empty in Hl. Qed.

Lemma keyed_app req (db : gmap string Item.t) :
  keyed db → keyed (app req db).2.
Proof.
  intros Hk. rewrite app_store.
  destruct req as [urandom item| |item_id|item_id item|item_id]; try done.
  - intros key stored. rewrite lookup_insert. case_decide.
    + intros [= <-]. done.
    + apply Hk.
  - destruct (db !! item_id); [|done].
    intros key stored. rewrite lookup_insert. case_decide.
    + intros [= <-]. done.
    + apply Hk.
  - intros key stored. rewrite lookup_delete. case_decide; [done|apply Hk].
Qed.

Lemma keyed_serve history : keyed (serve history ∅).
Proof.
  induction history as [|req history IH] using rev_ind.
  - apply keyed_empty.
  - rewrite serve_snoc. by apply keyed_app.
Qed.

Lemma reachable_keyed (db : gmap string Item.t) : reachable db → keyed db.
Proof. intros [history ->]. apply keyed_serve. Qed.

Lemma reachable_app req (db : gmap string Item.t) :
  reachable db → reachable (app req db).2.
Proof. intros [history ->]. exists (history ++ [req]). by rewrite serve_snoc. Qed.

(** In a keyed store the ids of the listed records are the keys. *)
Lemma keyed_ids (db : gmap string Item.t) :
  keyed db → Item.id <$> (map_to_list db).*2 = (map_to_list db).*1.
Proof.
  intros Hk. rewrite <- list_fmap_compose.
  apply Forall_fmap_ext_1, Forall_forall.
  intros [key stored] Hin%elem_of_map_to_list. simpl. by apply Hk.
Qed.

Lemma keyed_NoDup_ids (db : gmap string Item.t) :
  keyed db → NoDup (Item.id <$> (map_to_list db).*2).
Proof. intros Hk. rewrite keyed_ids by done. apply NoDup_fst_map_to_list. Qed.

(** Only identifiers that were handed out are keys of the store. *)
Lemma stored_issued history key :
  is_Some (serve history ∅ !! key) → key ∈ issued history.
Proof.
  induction history as [|req history IH] using rev_ind.
  - unfold serve. simpl. rewrite lookup_empty. by intros [? ?].
  - rewrite serve_snoc, app_store, issued_snoc, elem_of_app.
    destruct req as [urandom item| |item_id|item_id item|item_id]; simpl.
    + rewrite lookup_insert. case_decide as Hk.
      * intros _. right. rewrite Hk. set_solver.
      * auto.
    + auto.
    + auto.
    + destruct (serve history ∅ !! item_id) eqn:Hl; [|by auto].
      rewrite lookup_insert. case_decide as Hk; [|by auto].
      intros _. left. apply IH. rewrite <- Hk, Hl. eauto.
    + rewrite lookup_delete. case_decide; [by intros [? ?]|by auto].
Qed.

(** Without deletions, every identifier handed out is still a key. *)
Lemma issued_stored history key :
  forallb (λ req, negb (is_DELETE req)) history = true →
  key ∈ issued history → is_Some (serve history ∅ !! key).
Proof.
  induction history as [|req history IH] using rev_ind.
  - intros _ Hin. by apply elem_of_nil in Hin.
  - rewrite forallb_app. intros [Hh Hr]%andb_prop.
    rewrite serve_snoc, app_store, issued_snoc, elem_of_app.
    destruct req as [urandom item| |item_id|item_id item|item_id]; simpl.
    + rewrite lookup_insert. case_decide; [by eauto|].
      intros [Hin|Hin]; [by auto|].
      apply list_elem_of_singleton in Hin. congruence.
    + intros [Hin|Hin]; [by auto|]. by apply elem_of_nil in Hin.
    + intros [Hin|Hin]; [by auto|]. by apply elem_of_nil in Hin.
    + intros [Hin|Hin]; [|by apply elem_of_nil in Hin].
      destruct (serve history ∅ !! item_id) eqn:Hl; [|by auto].
      rewrite lookup_insert. case_decide; [by eauto|by auto].
    + done.
Qed.

(** ** The identifiers [uuid4] yields *)

Lemma length_append (s1 s2 : string) :
  String.length (s1 +:+ s2) = (String.length s1 + String.length s2)%nat.
Proof. induction s1 as [|c s1 IH]; simpl; [done|by rewrite IH]. Qed.

Lemma length_substring (s : string) (n m : nat) :
  (n + m ≤ String.length s)%nat → String.length (substring n m s) = m.
Proof.
  revert n m. induction s as [|c s IH]; intros [|n] [|m]; simpl; intros Hle;
    try done; try lia.
  - by rewrite IH by lia.
  - apply IH. lia.
  - apply IH. lia.
Qed.

Lemma length_hex (width : nat) (n : N) : String.length (uuid.hex width n) = width.
Proof.
  revert n. induction width as [|w IH]; intros n; simpl; [done|].
  rewrite length_append, IH. simpl. lia.
Qed.

Lemma length_str (int : N) : String.length (uuid.str int) = 36%nat.
Proof.
  unfold uuid.str. pose proof (length_hex 32 int) as Hh.
  set (h := uuid.hex 32 int) in *. clearbody h.
  rewrite !length_append, !length_substring by (rewrite Hh; lia).
  reflexivity.
Qed.

Lemma new_id_nonempty (urandom : N) : new_id urandom ≠ "".
Proof.
  intros Hempty. pose proof (length_str (uuid.uuid4 urandom)) as Hlen.
  unfold new_id in Hempty. by rewrite Hempty in Hlen.
Qed.

(** *** Distinct UUIDs print differently

    Reading the digits back with [unhex] recovers the integer, so [str]
    loses nothing. *)

Lemma unhexdigit_hexdigit (d : N) : (d < 16)%N → unhexdigit (uuid.hexdigit d) = d.
Proof.
  intros Hd. rewrite <- (N2Nat.id d) in *.
  assert (Hn : (N.to_nat d < 16)%nat) by lia.
  generalize dependent (N.to_nat d). intros n _ Hn.
  do 16 (destruct n as [|n]; [reflexivity|]). lia.
Qed.

Lemma unhex_append (acc : N) (s1 s2 : string) :
  unhex acc (s1 +:+ s2) = unhex (unhex acc s1) s2.
Proof. revert acc. induction s1 as [|c s1 IH]; intros acc; simpl; [done|apply IH]. Qed.

Lemma unhex_hex (width : nat) (acc n : N) :
  (n < 16 ^ N.of_nat width)%N →
  unhex acc (uuid.hex width n) = (acc * 16 ^ N.of_nat width + n)%N.
Proof.
  revert acc n. induction width as [|w IH]; intros acc n Hn.
  - simpl in *. lia.
  - rewrite Nat2N.inj_succ, N.pow_succ_r' in *.
    simpl. rewrite unhex_append, IH by (apply N.Div0.div_lt_upper_bound; lia).
    simpl. rewrite unhexdigit_hexdigit by (apply N.mod_lt; lia).
    pose proof (N.div_mod n 16). lia.
Qed.

Lemma hex_inj (width : nat) (a b : N) :
  (a < 16 ^ N.of_nat width)%N → (b < 16 ^ N.of_nat width)%N →
  uuid.hex width a = uuid.hex width b → a = b.
Proof.
  intros Ha Hb Heq.
  pose proof (unhex_hex width 0 a Ha) as Hra.
  pose proof (unhex_hex width 0 b Hb) as Hrb.
  rewrite Heq in Hra. lia.
Qed.

Lemma append_inj_length (s1 s2 t1 t2 : string) :
  String.length s1 = String.length t1 →
  s1 +:+ s2 = t1 +:+ t2 → s1 = t1 ∧ s2 = t2.
Proof.
  revert t1. induction s1 as [|c s1 IH]; intros [|d t1]; simpl; try done.
  intros [= Hlen] [= -> Heq]. destruct (IH _ Hlen Heq) as [-> ->]. done.
Qed.

Lemma substring_split (s : string) (n m k : nat) :
  substring n (m + k) s = substring n m s +:+ substring (n + m) k s.
Proof.
  revert n m k. induction s as [|c s IH]; intros n m k.
  - by destruct n, m, k.
  - destruct n as [|n]; simpl.
    + destruct m as [|m]; simpl; [done|]. by rewrite IH.
    + apply IH.
Qed.

Lemma substring_all (s : string) : substring 0 (String.length s) s = s.
Proof. induction s as [|c s IH]; simpl; [done|by rewrite IH]. Qed.

Lemma str_inj (a b : N) :
  (a < 2 ^ 128)%N → (b < 2 ^ 128)%N → uuid.str a = uuid.str b → a = b.
Proof.
  intros Ha Hb. unfold uuid.str.
  pose proof (length_hex 32 a) as Hla. pose proof (length_hex 32 b) as Hlb.
  pose proof (hex_inj 32 a b Ha Hb) as Hinj.
  set (ha := uuid.hex 32 a) in *. set (hb := uuid.hex 32 b) in *.
  clearbody ha hb. intros Heq. apply Hinj.
  repeat match type of Heq with
  | ?s +:+ _ = ?t +:+ _ =>
      let Hpiece := fresh "Hpiece" in
      apply append_inj_length in Heq as [Hpiece Heq];
        [|first [reflexivity|by rewrite !length_substring by lia]]
  end.
  rewrite <- (substring_all ha), <- (substring_all hb), Hla, Hlb.
  change 32%nat with (8 + (4 + (4 + (4 + 12))))%nat.
  rewrite !substring_split. simpl Nat.add. congruence.
Qed.

Lemma lor_lt_pow2 (a b n : N) :
  (a < 2 ^ n)%N → (b < 2 ^ n)%N → (N.lor a b < 2 ^ n)%N.
Proof.
  intros Ha Hb.
  destruct (N.eq_dec a 0%N) as [->|Ha0]; [by rewrite N.lor_0_l|].
  destruct (N.eq_dec b 0%N) as [->|Hb0]; [by rewrite N.lor_0_r|].
  apply N.log2_lt_pow2; [destruct (N.lor_eq_0_iff a b); lia|].
  rewrite N.log2_lor.
  apply N.max_lub_lt; apply N.log2_lt_pow2; lia.
Qed.

Lemma uuid4_range (urandom : N) : (uuid.uuid4 urandom < 2 ^ 128)%N.
Proof.
  unfold uuid.uuid4.
  apply lor_lt_pow2; [|reflexivity].
  eapply N.le_lt_trans; [apply N.ldiff_le_l|].
  apply lor_lt_pow2; [|reflexivity].
  eapply N.le_lt_trans; [apply N.ldiff_le_l|].
  apply N.mod_lt. discriminate.
Qed.

Lemma new_id_inj (u1 u2 : N) :
  new_id u1 = new_id u2 → uuid.uuid4 u1 = uuid.uuid4 u2.
Proof. apply str_inj; apply uuid4_range. Qed.

Lemma drawn_cons req history :
  drawn (req :: history) =
    match req with
    | POST_items urandom _ => uuid.uuid4 urandom :: drawn history
    | _ => drawn history
    end.
Proof. by destruct req. Qed.

Lemma issued_cons req history :
  issued (req :: history) =
    match req with
    | POST_items urandom _ => new_id urandom :: issued history
    | _ => issued history
    end.
Proof. by destruct req. Qed.

Lemma issued_drawn history : issued history = uuid.str <$> drawn history.
Proof.
  induction history as [|req history IH]; [done|].
  rewrite drawn_cons, issued_cons. destruct req; try done.
  by rewrite fmap_cons, IH.
Qed.

Lemma drawn_range history int : int ∈ drawn history → (int < 2 ^ 128)%N.
Proof.
  induction history as [|req history IH].
  - intros Hin. by apply elem_of_nil in Hin.
  - rewrite drawn_cons. destruct req; try done.
    intros [->|Hin]%elem_of_cons; [apply uuid4_range|by auto].
Qed.

Lemma new_id_issued history urandom :
  new_id urandom ∈ issued history ↔ uuid.uuid4 urandom ∈ drawn history.
Proof.
  rewrite issued_drawn, list_elem_of_fmap. split.
  - intros (int & Heq & Hin).
    assert (uuid.uuid4 urandom = int) as ->; [|done].
    apply str_inj; [apply uuid4_range|by eapply drawn_range|exact Heq].
  - intros Hin. eauto.
Qed.

Lemma NoDup_issued history : NoDup (drawn history) → NoDup (issued history).
Proof.
  intros Hnd. rewrite issued_drawn.
  apply NoDup_fmap_2_strong; [|done].
  intros a b Ha Hb Heq. apply str_inj; eauto using drawn_range.
Qed.

(** ** What the listing holds *)

Lemma length_issued history : length (issued history) = POSTs history.
Proof.
  unfold POSTs. induction history as [|req history IH]; [done|].
  rewrite issued_cons. destruct req; simpl; by rewrite ?IH.
Qed.

Lemma elem_of_keys (db : gmap string Item.t) key :
  key ∈ (map_to_list db).*1 ↔ is_Some (db !! key).
Proof.
  rewrite list_elem_of_fmap. split.
  - intros ([k stored] & -> & Hin%elem_of_map_to_list). simpl. eauto.
  - intros [stored Hl]. exists (key, stored). by rewrite elem_of_map_to_list.
Qed.

Lemma elem_of_values (db : gmap string Item.t) stored :
  keyed db → stored ∈ (map_to_list db).*2 ↔ db !! Item.id stored = Some stored.
Proof.
  intros Hk. rewrite list_elem_of_fmap. split.
  - intros ([key item] & -> & Hin%elem_of_map_to_list). simpl.
    by rewrite (Hk _ _ Hin).
  - intros Hl. exists (Item.id stored, stored). by rewrite elem_of_map_to_list.
Qed.

(** With creations and reads only, the store holds the records the creations
    answered with, as long as no identifier was handed out twice. *)
Lemma stored_created history stored :
  forallb (λ req, negb (is_DELETE req)) history = true →
  forallb (λ req, negb (is_PUT req)) history = true →
  NoDup (issued history) →
  stored ∈ created history ↔ serve history ∅ !! Item.id stored = Some stored.
Proof.
  revert stored. induction history as [|req history IH] using rev_ind;
    intros stored.
  - intros _ _ _. unfold serve. simpl. rewrite lookup_empty. split; [|done].
    intros Hin. by apply elem_of_nil in Hin.
  - rewrite !forallb_app, issued_snoc, created_snoc, serve_snoc, app_store.
    intros [Hd Hd']%andb_prop [Hp Hp']%andb_prop (Hnd & Hfresh & _)%NoDup_app.
    specialize (IH stored Hd Hp Hnd). rewrite elem_of_app, IH.
    destruct req as [urandom item| |item_id|item_id item|item_id];
      try done; simpl.
    + rewrite list_elem_of_singleton, lookup_insert. case_decide as Hid.
      * split; [|by intros [= ->]; right].
        intros [Hl| ->]; [|done]. destruct (Hfresh (new_id urandom)).
        -- apply stored_issued. rewrite Hid, Hl. eauto.
        -- apply list_elem_of_singleton. done.
      * split; [|by left]. intros [Hl| ->]; [done|]. by destruct Hid.
    + split; [|by left]. intros [Hl|Hin]; [done|]. by apply elem_of_nil in Hin.
    + split; [|by left]. intros [Hl|Hin]; [done|]. by apply elem_of_nil in Hin.
Qed.

Lemma created_ids history : Item.id <$> created history = issued history.
Proof.
  induction history as [|req history IH]; [done|].
  rewrite issued_cons, <- IH. by destruct req.
Qed.

(** * The CRUD contract *)

(** C1: on an existing id, [update_item] returns (and PUT answers 200 with) a
    record that keeps the id of the stored one and takes every other field
    from the request body: an optional field the body left out arrives as
    [None] and is stored as such, whatever the old record held.  The record
    replaces the old one in the store, and a GET of that id answers with
    it. *)
Theorem update_item_replaces item_id old item (db : gmap string Item.t) :
  reachable db →
  db !! item_id = Some old →
  ∃ updated,
    update_item item_id item db = (Return updated, <[item_id := updated]> db) ∧
    app (PUT_item item_id item) db =
      (mkResponse HTTP_200_OK (JItem updated), <[item_id := updated]> db) ∧
    Item.id updated = Item.id old ∧
    Item.name updated = ItemCreate.name item ∧
    Item.description updated = ItemCreate.description item ∧
    Item.price updated = ItemCreate.price item ∧
    Item.tax updated = ItemCreate.tax item ∧
    read_item item_id (<[item_id := updated]> db) =
      (Return updated, <[item_id := updated]> db) ∧
    app (GET_item item_id) (<[item_id := updated]> db) =
      (mkResponse HTTP_200_OK (JItem updated), <[item_id := updated]> db).
Proof.
  intros Hk%reachable_keyed Hold.
  assert (Hin : is_Some (db !! item_id)) by (rewrite Hold; eauto).
  exists (Item_from item_id item).
  split; [by apply update_item_Some|].
  split; [by apply PUT_item_Some|].
  split; [symmetry; by apply Hk|].
  do 4 (split; [reflexivity|]).
  split.
  - apply read_item_Some, lookup_insert_eq.
  - apply GET_item_Some, lookup_insert_eq.
Qed.

Lemma update_item_replaces_witness :
  reachable (serve [POST_items 7 pen] ∅) ∧
  serve [POST_items 7 pen] ∅ !! new_id 7 = Some (Item_from (new_id 7) pen) ∧
  ∃ updated,
    (app (PUT_item (new_id 7) pen2) (serve [POST_items 7 pen] ∅)).1 =
      mkResponse HTTP_200_OK (JItem updated) ∧
    Item.id updated = new_id 7 ∧
    Item.name updated = "Pen2" ∧
    Item.description updated = None ∧
    Item.tax updated = None.
Proof.
  assert (Hreach : reachable (serve [POST_items 7 pen] ∅)) by (by eexists).
  assert (Hold : serve [POST_items 7 pen] ∅ !! new_id 7
                 = Some (Item_from (new_id 7) pen))
    by (vm_compute; reflexivity).
  split; [exact Hreach|]. split; [exact Hold|].
  destruct (update_item_replaces (new_id 7) (Item_from (new_id 7) pen) pen2
              (serve [POST_items 7 pen] ∅) Hreach Hold)
    as (updated & _ & Hput & Hid & Hname & Hdescr & _ & Htax & _).
  exists updated.
  split; [exact (f_equal fst Hput)|].
  split; [exact Hid|]. split; [exact Hname|]. split; [exact Hdescr|exact Htax].
Defined.

(** C2 (as amended): [create_item] returns (and POST answers 201 with) a
    record whose id is a non-empty string, 36 characters long; a GET of that
    id right afterwards answers 200 with that same record, and the record's
    name, description, price and tax are the request body's.  The id is not
    a key of the store the request was served on as long as [uuid4] returns
    a UUID it has not returned before: [create_item] itself makes no
    membership test. *)
Theorem create_item_roundtrip history urandom item
    (db db' : gmap string Item.t) :
  db = serve history ∅ →
  db' = serve (history ++ [POST_items urandom item]) ∅ →
  ∃ new_item,
    create_item urandom item db = (Return new_item, db') ∧
    app (POST_items urandom item) db =
      (mkResponse HTTP_201_CREATED (JItem new_item), db') ∧
    Item.id new_item ≠ "" ∧
    String.length (Item.id new_item) = 36%nat ∧
    (uuid.uuid4 urandom ∉ drawn history → db !! Item.id new_item = None) ∧
    read_item (Item.id new_item) db' = (Return new_item, db') ∧
    app (GET_item (Item.id new_item)) db' =
      (mkResponse HTTP_200_OK (JItem new_item), db') ∧
    Item.name new_item = ItemCreate.name item ∧
    Item.description new_item = ItemCreate.description item ∧
    Item.price new_item = ItemCreate.price item ∧
    Item.tax new_item = ItemCreate.tax item.
Proof.
  intros -> ->. exists (Item_from (new_id urandom) item).
  rewrite serve_snoc, POST_items_eq, create_item_eq.
  do 2 (split; [reflexivity|]).
  split; [apply new_id_nonempty|].
  split; [apply length_str|].
  split; [|split; [|split; [|done]]].
  - intros Hfresh. simpl.
    destruct (serve history ∅ !! new_id urandom) eqn:Hl; [|done].
    destruct Hfresh. apply new_id_issued, stored_issued. rewrite Hl. eauto.
  - apply read_item_Some, lookup_insert_eq.
  - apply GET_item_Some, lookup_insert_eq.
Qed.

Lemma create_item_roundtrip_witness :
  (uuid.uuid4 12345 ∉ drawn [POST_items 7 pen]) ∧
  ∃ new_item,
    (app (POST_items 12345 pen2) (serve [POST_items 7 pen] ∅)).1 =
      mkResponse HTTP_201_CREATED (JItem new_item) ∧
    Item.id new_item ≠ "" ∧
    serve [POST_items 7 pen] ∅ !! Item.id new_item = None ∧
    (app (GET_item (Item.id new_item))
       (serve [POST_items 7 pen; POST_items 12345 pen2] ∅)).1 =
      mkResponse HTTP_200_OK (JItem new_item) ∧
    Item.name new_item = "Pen2" ∧
    Item.description new_item = None.
Proof.
  assert (Hfresh : uuid.uuid4 12345 ∉ drawn [POST_items 7 pen]).
  { intros Hin. apply list_elem_of_singleton in Hin. vm_compute in Hin. discriminate. }
  split; [done|].
  destruct (create_item_roundtrip [POST_items 7 pen] 12345 pen2 _ _
              eq_refl eq_refl)
    as (new_item & _ & Hpost & Hne & _ & Hnew & _ & Hget & Hname & Hdescr & _).
  exists new_item.
  split; [exact (f_equal fst Hpost)|].
  split; [exact Hne|].
  split; [exact (Hnew Hfresh)|].
  split; [exact (f_equal fst Hget)|].
  split; [exact Hname|exact Hdescr].
Defined.

(** C2 as stated fails when [uuid4] repeats a draw: the id [create_item]
    returns is then a key of the store already, and the record filed under
    it is replaced. *)
Lemma create_item_repeated_draw :
  ∃ new_item db',
    create_item 7 pen2 (serve [POST_items 7 pen] ∅) = (Return new_item, db') ∧
    serve [POST_items 7 pen] ∅ !! Item.id new_item
      = Some (Item_from (new_id 7) pen) ∧
    db' !! Item.id new_item = Some new_item ∧
    Item.name new_item = "Pen2".
Proof.
  eexists _, _. rewrite create_item_eq.
  split; [reflexivity|].
  split; [vm_compute; reflexivity|].
  split; [apply lookup_insert_eq|reflexivity].
Qed.

(** C3: on a stored id, [delete_item] removes that record and no other;
    afterwards GET and DELETE of the same id both answer 404.  On an id that
    is not stored, DELETE answers 404. *)
Theorem delete_item_removes item_id (db : gmap string Item.t) :
  (is_Some (db !! item_id) →
   ∃ payload db',
     delete_item item_id db = (Return payload, db') ∧
     db' !! item_id = None ∧
     (∀ key, key ≠ item_id → db' !! key = db !! key) ∧
     app (GET_item item_id) db' = (not_found, db') ∧
     app (DELETE_item item_id) db' = (not_found, db')) ∧
  (db !! item_id = None →
   delete_item item_id db =
     (Raise (HTTPException HTTP_404_NOT_FOUND "Elemento no encontrado"), db) ∧
   app (DELETE_item item_id) db = (not_found, db)).
Proof.
  split.
  - intros Hin. eexists _, (delete item_id db).
    split; [by apply delete_item_Some|].
    split; [apply lookup_delete_eq|].
    split; [intros key Hne; by apply lookup_delete_ne|].
    split.
    + apply GET_item_None, lookup_delete_eq.
    + apply DELETE_item_None, lookup_delete_eq.
  - intros Hout. split; [by apply delete_item_None|by apply DELETE_item_None].
Qed.

Lemma delete_item_removes_witness :
  is_Some (serve [POST_items 7 pen] ∅ !! new_id 7) ∧
  (serve [POST_items 7 pen] ∅ : gmap string Item.t) !! "nonexistent" = None ∧
  (∃ payload db',
     delete_item (new_id 7) (serve [POST_items 7 pen] ∅) = (Return payload, db') ∧
     (app (GET_item (new_id 7)) db').1 = not_found ∧
     (app (DELETE_item (new_id 7)) db').1 = not_found) ∧
  (app (DELETE_item "nonexistent") (serve [POST_items 7 pen] ∅)).1 = not_found.
Proof.
  assert (Hin : is_Some (serve [POST_items 7 pen] ∅ !! new_id 7))
    by (vm_compute; eauto).
  assert (Hout : (serve [POST_items 7 pen] ∅ : gmap string Item.t)
                   !! "nonexistent" = None)
    by (vm_compute; reflexivity).
  split; [exact Hin|]. split; [exact Hout|]. split.
  - destruct (proj1 (delete_item_removes (new_id 7) (serve [POST_items 7 pen] ∅)) Hin)
      as (payload & db' & Hdel & _ & _ & Hget & Hagain).
    exists payload, db'.
    split; [exact Hdel|].
    split; [exact (f_equal fst Hget)|exact (f_equal fst Hagain)].
  - destruct (proj2 (delete_item_removes "nonexistent" (serve [POST_items 7 pen] ∅)) Hout)
      as [_ Hdel].
    exact (f_equal fst Hdel).
Defined.

(** C4: [read_item] returns the stored record, answered with 200, exactly
    when the id is a key of the store, and raises 404 exactly when it is
    not; no other outcome exists.  An id that was never handed out is
    answered with 404. *)
Theorem read_item_iff item_id (db : gmap string Item.t) :
  (∀ stored,
     read_item item_id db = (Return stored, db) ↔ db !! item_id = Some stored) ∧
  (∀ stored,
     app (GET_item item_id) db = (mkResponse HTTP_200_OK (JItem stored), db)
     ↔ db !! item_id = Some stored) ∧
  (read_item item_id db =
     (Raise (HTTPException HTTP_404_NOT_FOUND "Elemento no encontrado"), db)
   ↔ db !! item_id = None) ∧
  (app (GET_item item_id) db = (not_found, db) ↔ db !! item_id = None) ∧
  (status_code (app (GET_item item_id) db).1 = 200%nat ↔ is_Some (db !! item_id)) ∧
  (status_code (app (GET_item item_id) db).1 = 404%nat ↔ db !! item_id = None) ∧
  (∀ history,
     item_id ∉ issued history →
     app (GET_item item_id) (serve history ∅) = (not_found, serve history ∅)).
Proof.
  split; [|split; [|split; [|split; [|split; [|split]]]]].
  - intros stored. split; [|apply read_item_Some].
    destruct (db !! item_id) as [found|] eqn:Hl.
    + rewrite (read_item_Some _ found) by done. by intros [= ->].
    + by rewrite read_item_None.
  - intros stored. split; [|apply GET_item_Some].
    destruct (db !! item_id) as [found|] eqn:Hl.
    + rewrite (GET_item_Some _ found) by done. by intros [= ->].
    + by rewrite GET_item_None.
  - split; [|apply read_item_None].
    destruct (db !! item_id) as [found|] eqn:Hl; [|done].
    by rewrite (read_item_Some _ found).
  - split; [|apply GET_item_None].
    destruct (db !! item_id) as [found|] eqn:Hl; [|done].
    by rewrite (GET_item_Some _ found).
  - destruct (db !! item_id) as [found|] eqn:Hl.
    + rewrite (GET_item_Some _ found) by done. split; eauto.
    + rewrite GET_item_None by done. simpl. split; [done|by intros [? ?]].
  - destruct (db !! item_id) as [found|] eqn:Hl.
    + by rewrite (GET_item_Some _ found).
    + by rewrite GET_item_None.
  - intros history Hnew. apply GET_item_None.
    destruct (serve history ∅ !! item_id) eqn:Hl; [|done].
    destruct Hnew. apply stored_issued. rewrite Hl. eauto.
Qed.

Lemma read_item_iff_witness :
  ("nonexistent" ∉ issued [POST_items 7 pen]) ∧
  app (GET_item "nonexistent") (serve [POST_items 7 pen] ∅) =
    (not_found, serve [POST_items 7 pen] ∅).
Proof.
  assert (Hnew : "nonexistent" ∉ issued [POST_items 7 pen]).
  { vm_compute. intros Hin. apply list_elem_of_singleton in Hin. discriminate. }
  split; [exact Hnew|].
  destruct (read_item_iff "nonexistent" ∅) as (_ & _ & _ & _ & _ & _ & Hnever).
  exact (Hnever [POST_items 7 pen] Hnew).
Defined.

(** C5 (as amended): on a stored id, the DELETE route removes the record
    and answers with status 204 and no body: the one-entry message object
    that [delete_item] returns is not sent to the caller. *)
Theorem delete_item_204_no_body item_id (db : gmap string Item.t) :
  is_Some (db !! item_id) →
  ∃ payload response,
    delete_item item_id db = (Return payload, delete item_id db) ∧
    payload = [("message", "Elemento eliminado exitosamente")] ∧
    app (DELETE_item item_id) db = (response, delete item_id db) ∧
    status_code response = 204%nat ∧
    body_sent response = None.
Proof.
  intros Hin. eexists _, _.
  split; [by apply delete_item_Some|].
  split; [reflexivity|].
  split; [by apply DELETE_item_Some|].
  split; reflexivity.
Qed.

Lemma delete_item_204_no_body_witness :
  is_Some (serve [POST_items 7 pen] ∅ !! new_id 7) ∧
  ∃ response db',
    app (DELETE_item (new_id 7)) (serve [POST_items 7 pen] ∅) = (response, db') ∧
    status_code response = 204%nat ∧
    body_sent response = None.
Proof.
  assert (Hin : is_Some (serve [POST_items 7 pen] ∅ !! new_id 7))
    by (vm_compute; eauto).
  split; [exact Hin|].
  destruct (delete_item_204_no_body (new_id 7) (serve [POST_items 7 pen] ∅) Hin)
    as (payload & response & _ & _ & Hdel & Hstatus & Hbody).
  exists response, (delete (new_id 7) (serve [POST_items 7 pen] ∅)).
  split; [exact Hdel|]. split; [exact Hstatus|exact Hbody].
Defined.

(** C5 as stated fails on every successful deletion: no payload reaches the
    caller, while an answer that may carry a body, such as the 404 of a
    DELETE on the empty store, does carry it. *)
Lemma delete_item_body_not_sent :
  is_Some (serve [POST_items 7 pen] ∅ !! new_id 7) ∧
  status_code (app (DELETE_item (new_id 7)) (serve [POST_items 7 pen] ∅)).1
    = 204%nat ∧
  ¬ (∃ payload,
       body_sent (app (DELETE_item (new_id 7)) (serve [POST_items 7 pen] ∅)).1
         = Some (JObject payload) ∧ payload ≠ []) ∧
  body_sent (app (DELETE_item (new_id 7)) ∅).1
    = Some (JDetail "Elemento no encontrado").
Proof.
  assert (Hin : is_Some (serve [POST_items 7 pen] ∅ !! new_id 7))
    by (vm_compute; eauto).
  split; [exact Hin|].
  rewrite DELETE_item_Some by exact Hin.
  split; [reflexivity|].
  split; [|reflexivity].
  intros (payload & Hsent & _). discriminate Hsent.
Qed.

(** C7: on an id that is not stored, [update_item] and [delete_item] raise
    404 and the store afterwards is the store before. *)
Theorem missing_id_leaves_store item_id item (db : gmap string Item.t) :
  db !! item_id = None →
  update_item item_id item db =
    (Raise (HTTPException HTTP_404_NOT_FOUND "Elemento no encontrado"), db) ∧
  delete_item item_id db =
    (Raise (HTTPException HTTP_404_NOT_FOUND "Elemento no encontrado"), db) ∧
  app (PUT_item item_id item) db = (not_found, db) ∧
  app (DELETE_item item_id) db = (not_found, db).
Proof.
  intros Hout.
  split; [by apply update_item_None|].
  split; [by apply delete_item_None|].
  split; [by apply PUT_item_None|by apply DELETE_item_None].
Qed.

Lemma missing_id_leaves_store_witness :
  (serve [POST_items 7 pen] ∅ : gmap string Item.t) !! "nonexistent" = None ∧
  (app (PUT_item "nonexistent" pen2) (serve [POST_items 7 pen] ∅)).2 =
    serve [POST_items 7 pen] ∅ ∧
  (app (DELETE_item "nonexistent") (serve [POST_items 7 pen] ∅)).2 =
    serve [POST_items 7 pen] ∅.
Proof.
  assert (Hout : (serve [POST_items 7 pen] ∅ : gmap string Item.t)
                   !! "nonexistent" = None)
    by (vm_compute; reflexivity).
  split; [exact Hout|].
  destruct (missing_id_leaves_store "nonexistent" pen2 _ Hout)
    as (_ & _ & Hput & Hdel).
  split; [exact (f_equal snd Hput)|exact (f_equal snd Hdel)].
Defined.

(** C6 (as amended): from the empty store, after a history without DELETE
    whose N creations drew pairwise different UUIDs, [read_items] returns
    (and the listing answers 200 with) exactly N records: their ids are the
    identifiers handed out, each is the record stored under its id, and,
    when the history holds no PUT either, they are the records the creations
    answered with; all up to order. *)
Theorem read_items_after_creates history :
  forallb (λ req, negb (is_DELETE req)) history = true →
  NoDup (drawn history) →
  ∃ items,
    read_items (serve history ∅) = (Return items, serve history ∅) ∧
    app GET_items (serve history ∅) =
      (mkResponse HTTP_200_OK (JItems items), serve history ∅) ∧
    length items = POSTs history ∧
    Item.id <$> items ≡ₚ issued history ∧
    (∀ stored, stored ∈ items ↔ serve history ∅ !! Item.id stored = Some stored) ∧
    (forallb (λ req, negb (is_PUT req)) history = true →
     items ≡ₚ created history).
Proof.
  intros Hdel Hnd%NoDup_issued.
  pose proof (keyed_serve history) as Hk.
  exists ((map_to_list (serve history ∅)).*2).
  assert (Hids : Item.id <$> (map_to_list (serve history ∅)).*2 ≡ₚ issued history).
  { rewrite keyed_ids by done.
    apply NoDup_Permutation; [apply NoDup_fst_map_to_list|done|].
    intros key. rewrite elem_of_keys. split.
    - apply stored_issued.
    - by apply issued_stored. }
  do 2 (split; [reflexivity|]).
  split; [|split; [exact Hids|split]].
  - apply Permutation_length in Hids. rewrite length_fmap in Hids.
    by rewrite <- length_issued.
  - intros stored. by apply elem_of_values.
  - intros Hput. apply NoDup_Permutation.
    + eapply NoDup_fmap_1. by apply keyed_NoDup_ids.
    + apply (NoDup_fmap_1 Item.id). by rewrite created_ids.
    + intros stored. rewrite elem_of_values by done.
      symmetry. by apply stored_created.
Qed.

Lemma read_items_after_creates_witness :
  forallb (λ req, negb (is_DELETE req))
    [POST_items 7 pen; GET_items; POST_items 12345 pen] = true ∧
  NoDup (drawn [POST_items 7 pen; GET_items; POST_items 12345 pen]) ∧
  ∃ items,
    (app GET_items (serve [POST_items 7 pen; GET_items; POST_items 12345 pen] ∅)).1
      = mkResponse HTTP_200_OK (JItems items) ∧
    length items = 2%nat ∧
    items ≡ₚ [Item_from (new_id 7) pen; Item_from (new_id 12345) pen].
Proof.
  assert (Hnd : NoDup (drawn [POST_items 7 pen; GET_items; POST_items 12345 pen])).
  { vm_compute. apply NoDup_cons. split; [|apply NoDup_singleton].
    intros Hin. apply list_elem_of_singleton in Hin. discriminate. }
  split; [reflexivity|]. split; [exact Hnd|].
  destruct (read_items_after_creates
              [POST_items 7 pen; GET_items; POST_items 12345 pen] eq_refl Hnd)
    as (items & _ & Hget & Hlen & _ & _ & Hcreated).
  exists items.
  split; [exact (f_equal fst Hget)|].
  split; [exact Hlen|exact (Hcreated eq_refl)].
Defined.

(** C6 as stated fails when two creations draw the same UUID: both are
    answered with 201, yet the listing holds one record, the later one. *)
Lemma read_items_repeated_draw :
  forallb (λ req, negb (is_DELETE req))
    [POST_items 7 pen; POST_items 7 pen2] = true ∧
  POSTs [POST_items 7 pen; POST_items 7 pen2] = 2%nat ∧
  status_code (app (POST_items 7 pen) ∅).1 = 201%nat ∧
  status_code (app (POST_items 7 pen2) (serve [POST_items 7 pen] ∅)).1 = 201%nat ∧
  read_items (serve [POST_items 7 pen; POST_items 7 pen2] ∅) =
    (Return [Item_from (new_id 7) pen2],
     serve [POST_items 7 pen; POST_items 7 pen2] ∅).
Proof.
  do 4 (split; [reflexivity|]).
  vm_compute. reflexivity.
Qed.

(** C8 (as amended): two creations whose bodies carry the same name both
    return a record (answered with 201) made of the submitted body, no
    lookup by name being made, and the listing that follows holds the second
    one.  The two ids differ exactly when the two UUIDs drawn differ, and
    then the listing holds the first record too. *)
Theorem create_same_name_twice urandom1 urandom2 item1 item2
    (db : gmap string Item.t) :
  ItemCreate.name item1 = ItemCreate.name item2 →
  ∃ first second db1 db2 items,
    create_item urandom1 item1 db = (Return first, db1) ∧
    create_item urandom2 item2 db1 = (Return second, db2) ∧
    app (POST_items urandom1 item1) db =
      (mkResponse HTTP_201_CREATED (JItem first), db1) ∧
    app (POST_items urandom2 item2) db1 =
      (mkResponse HTTP_201_CREATED (JItem second), db2) ∧
    (Item.name first = ItemCreate.name item1 ∧
     Item.description first = ItemCreate.description item1 ∧
     Item.price first = ItemCreate.price item1 ∧
     Item.tax first = ItemCreate.tax item1) ∧
    (Item.name second = ItemCreate.name item2 ∧
     Item.description second = ItemCreate.description item2 ∧
     Item.price second = ItemCreate.price item2 ∧
     Item.tax second = ItemCreate.tax item2) ∧
    Item.name first = Item.name second ∧
    read_items db2 = (Return items, db2) ∧
    app GET_items db2 = (mkResponse HTTP_200_OK (JItems items), db2) ∧
    second ∈ items ∧
    (Item.id first ≠ Item.id second ↔ uuid.uuid4 urandom1 ≠ uuid.uuid4 urandom2) ∧
    (uuid.uuid4 urandom1 ≠ uuid.uuid4 urandom2 → first ∈ items).
Proof.
  intros Hname.
  eexists _, _, _, _, _. rewrite !POST_items_eq, !create_item_eq, GET_items_eq.
  do 4 (split; [reflexivity|]).
  do 2 (split; [by repeat split|]).
  split; [exact Hname|].
  do 2 (split; [reflexivity|]).
  split; [|split].
  - apply list_elem_of_fmap.
    exists (new_id urandom2, Item_from (new_id urandom2) item2).
    split; [done|]. apply elem_of_map_to_list. apply lookup_insert_eq.
  - change (new_id urandom1 ≠ new_id urandom2
            ↔ uuid.uuid4 urandom1 ≠ uuid.uuid4 urandom2).
    split.
    + intros Hids Heq. apply Hids. unfold new_id. by rewrite Heq.
    + intros Hdiff Heq. by apply Hdiff, new_id_inj.
  - intros Hdiff.
    assert (Hids : new_id urandom1 ≠ new_id urandom2)
      by (intros Heq; by apply Hdiff, new_id_inj).
    apply list_elem_of_fmap.
    exists (new_id urandom1, Item_from (new_id urandom1) item1).
    split; [done|]. apply elem_of_map_to_list.
    rewrite lookup_insert_ne by done. apply lookup_insert_eq.
Qed.

Lemma create_same_name_twice_witness :
  ItemCreate.name pen = ItemCreate.name pen_again ∧
  uuid.uuid4 7 ≠ uuid.uuid4 12345 ∧
  ∃ first second (items : list Item.t),
    (app (POST_items 7 pen) ∅).1 = mkResponse HTTP_201_CREATED (JItem first) ∧
    (app (POST_items 12345 pen_again) (app (POST_items 7 pen) ∅).2).1 =
      mkResponse HTTP_201_CREATED (JItem second) ∧
    Item.description first = Some "old" ∧
    Item.description second = None ∧
    Item.id first ≠ Item.id second ∧
    first ∈ items ∧ second ∈ items.
Proof.
  assert (Hdiff : uuid.uuid4 7 ≠ uuid.uuid4 12345) by (vm_compute; discriminate).
  split; [reflexivity|]. split; [exact Hdiff|].
  destruct (create_same_name_twice 7 12345 pen pen_again ∅ eq_refl)
    as (first & second & db1 & db2 & items
        & _ & _ & H1 & H2 & (_ & Hd1 & _) & (_ & Hd2 & _) & _ & _ & _
        & Hin2 & Hids & Hin1).
  exists first, second, items.
  split; [exact (f_equal fst H1)|].
  split; [rewrite H1; exact (f_equal fst H2)|].
  split; [exact Hd1|]. split; [exact Hd2|].
  split; [exact (proj2 Hids Hdiff)|].
  split; [exact (Hin1 Hdiff)|exact Hin2].
Defined.

(** C8 as stated fails when the two creations draw the same UUID: both are
    answered with 201, but under one and the same id, and the listing that
    follows holds the second record only. *)
Lemma create_same_name_repeated_draw :
  ItemCreate.name pen = ItemCreate.name pen_again ∧
  ∃ first second db1 db2,
    app (POST_items 7 pen) ∅ =
      (mkResponse HTTP_201_CREATED (JItem first), db1) ∧
    app (POST_items 7 pen_again) db1 =
      (mkResponse HTTP_201_CREATED (JItem second), db2) ∧
    Item.id first = Item.id second ∧
    first ≠ second ∧
    read_items db2 = (Return [second], db2).
Proof.
  split; [reflexivity|].
  eexists _, _, _, _. rewrite !POST_items_eq, read_items_eq.
  do 3 (split; [reflexivity|]).
  split; [discriminate|].
  vm_compute. reflexivity.
Qed.

(** C9: in a store the service can be in, whatever request is served next, a
    record that stays under its key keeps its id, and in particular the
    record [update_item] stores carries the id of the record it replaces;
    [read_item] and [read_items] leave any store as it was. *)
Theorem id_immutable_reads_pure item_id old (db : gmap string Item.t) :
  reachable db →
  db !! item_id = Some old →
  (∀ req new,
     (app req db).2 !! item_id = Some new → Item.id new = Item.id old) ∧
  (∀ item, ∃ updated db',
     update_item item_id item db = (Return updated, db') ∧
     db' !! item_id = Some updated ∧
     Item.id updated = Item.id old) ∧
  (∀ (any_db : gmap string Item.t) any_id,
     (read_item any_id any_db).2 = any_db ∧
     (app (GET_item any_id) any_db).2 = any_db) ∧
  (∀ any_db : gmap string Item.t,
     (read_items any_db).2 = any_db ∧ (app GET_items any_db).2 = any_db).
Proof.
  intros Hreach Hold.
  pose proof (reachable_keyed _ Hreach _ _ Hold) as Hkey.
  split; [|split; [|split]].
  - intros req new Hnew.
    pose proof (reachable_keyed _ (reachable_app req _ Hreach) _ _ Hnew).
    congruence.
  - intros item. exists (Item_from item_id item), (<[item_id := Item_from item_id item]> db).
    split; [apply update_item_Some; rewrite Hold; eauto|].
    split; [apply lookup_insert_eq|by symmetry].
  - intros any_db any_id. destruct (any_db !! any_id) as [found|] eqn:Hl.
    + by rewrite (GET_item_Some _ found), (read_item_Some _ found).
    + by rewrite GET_item_None, read_item_None.
  - done.
Qed.

Lemma id_immutable_reads_pure_witness :
  reachable (serve [POST_items 7 pen] ∅) ∧
  serve [POST_items 7 pen] ∅ !! new_id 7 = Some (Item_from (new_id 7) pen) ∧
  ∃ updated db',
    update_item (new_id 7) pen2 (serve [POST_items 7 pen] ∅) = (Return updated, db') ∧
    db' !! new_id 7 = Some updated ∧
    Item.id updated = new_id 7.
Proof.
  assert (Hreach : reachable (serve [POST_items 7 pen] ∅)) by (by eexists).
  assert (Hold : serve [POST_items 7 pen] ∅ !! new_id 7
                 = Some (Item_from (new_id 7) pen))
    by (vm_compute; reflexivity).
  split; [exact Hreach|]. split; [exact Hold|].
  destruct (id_immutable_reads_pure (new_id 7) (Item_from (new_id 7) pen)
              (serve [POST_items 7 pen] ∅) Hreach Hold) as (_ & Hput & _).
  destruct (Hput pen2) as (updated & db' & Hupd & Hl & Hid).
  exists updated, db'. split; [exact Hupd|]. split; [exact Hl|exact Hid].
Defined.

(** C10: the empty store files every record under its own id and every
    request keeps it so, hence so does every store the service can be in;
    there, records under different keys carry different ids, and the listed
    records carry pairwise distinct ids. *)
Theorem keyed_invariant :
  keyed ∅ ∧
  (∀ req (db : gmap string Item.t), keyed db → keyed (app req db).2) ∧
  (∀ (db : gmap string Item.t) key stored,
     reachable db → db !! key = Some stored → Item.id stored = key) ∧
  (∀ (db : gmap string Item.t) key1 key2 stored1 stored2,
     reachable db →
     db !! key1 = Some stored1 → db !! key2 = Some stored2 →
     key1 ≠ key2 → Item.id stored1 ≠ Item.id stored2) ∧
  (∀ (db : gmap string Item.t) items,
     reachable db →
     read_items db = (Return items, db) → NoDup (Item.id <$> items)).
Proof.
  split; [apply keyed_empty|].
  split; [intros req db; apply keyed_app|].
  split; [|split].
  - intros db key stored Hreach. by apply reachable_keyed.
  - intros db key1 key2 stored1 stored2 Hk%reachable_keyed H1 H2 Hne.
    by rewrite (Hk _ _ H1), (Hk _ _ H2).
  - intros db items Hk%reachable_keyed. rewrite read_items_eq. intros [= <-].
    by apply keyed_NoDup_ids.
Qed.

Lemma keyed_invariant_witness :
  reachable (serve [POST_items 7 pen; PUT_item (new_id 7) pen2] ∅) ∧
  serve [POST_items 7 pen; PUT_item (new_id 7) pen2] ∅ !! new_id 7
    = Some (Item_from (new_id 7) pen2) ∧
  Item.id (Item_from (new_id 7) pen2) = new_id 7.
Proof.
  assert (Hreach : reachable (serve [POST_items 7 pen; PUT_item (new_id 7) pen2] ∅))
    by (by eexists).
  assert (Hl : serve [POST_items 7 pen; PUT_item (new_id 7) pen2] ∅ !! new_id 7
               = Some (Item_from (new_id 7) pen2))
    by (vm_compute; reflexivity).
  split; [exact Hreach|]. split; [exact Hl|].
  destruct keyed_invariant as (_ & _ & Hkey & _).
  exact (Hkey _ _ _ Hreach Hl).
Defined.

(** * Further properties of the handlers *)

(** ** Each handler looks at, and writes, one key only *)

Lemma serve_cons req history (db : gmap string Item.t) :
  serve (req :: history) db = serve history (app req db).2.
Proof. reflexivity. Qed.

Lemma POSTs_snoc history req :
  POSTs (history ++ [req]) =
    (POSTs history + if is_POST req then 1 else 0)%nat.
Proof.
  unfold POSTs. rewrite List.filter_app, length_app. simpl.
  by destruct (is_POST req).
Qed.

Lemma app_untouched req key (db : gmap string Item.t) :
  target req ≠ Some key → (app req db).2 !! key = db !! key.
Proof.
  intros Hother. rewrite app_store.
  destruct req as [urandom item| |item_id|item_id item|item_id];
    simpl in Hother; try done.
  - apply lookup_insert_ne. congruence.
  - destruct (db !! item_id); [|done]. apply lookup_insert_ne. congruence.
  - apply lookup_delete_ne. congruence.
Qed.

Lemma app_local_store req key (db1 db2 : gmap string Item.t) :
  target req = Some key → db1 !! key = db2 !! key →
  (app req db1).2 !! key = (app req db2).2 !! key.
Proof.
  intros Htarget Hsame. rewrite !app_store.
  destruct req as [urandom item| |item_id|item_id item|item_id];
    simpl in Htarget; try done; injection Htarget as ->.
  - by rewrite !lookup_insert_eq.
  - rewrite <- Hsame. destruct (db1 !! key) eqn:Hl; [|congruence].
    by rewrite !lookup_insert_eq.
  - by rewrite !lookup_delete_eq.
Qed.

Lemma app_local_response req key (db1 db2 : gmap string Item.t) :
  target req = Some key → db1 !! key = db2 !! key →
  (app req db1).1 = (app req db2).1.
Proof.
  intros Htarget Hsame.
  destruct req as [urandom item| |item_id|item_id item|item_id];
    simpl in Htarget; [reflexivity|discriminate|discriminate| |];
    injection Htarget as ->.
  - destruct (db1 !! key) as [stored|] eqn:Hl.
    + by rewrite !PUT_item_Some by (rewrite <- ?Hsame, ?Hl; eauto).
    + by rewrite !PUT_item_None by congruence.
  - destruct (db1 !! key) as [stored|] eqn:Hl.
    + by rewrite !DELETE_item_Some by (rewrite <- ?Hsame, ?Hl; eauto).
    + by rewrite !DELETE_item_None by congruence.
Qed.

Lemma serve_untouched later key (db : gmap string Item.t) :
  Forall (λ req, target req ≠ Some key) later →
  serve later db !! key = db !! key.
Proof.
  revert db. induction later as [|req later IH]; intros db Hall; [done|].
  apply Forall_cons in Hall as [Hreq Hall].
  by rewrite serve_cons, IH, app_untouched.
Qed.

Lemma serve_absent later key (db : gmap string Item.t) :
  db !! key = None → key ∉ issued later → serve later db !! key = None.
Proof.
  revert db. induction later as [|req later IH]; intros db Hout Hnew; [done|].
  rewrite serve_cons. rewrite issued_cons in Hnew. apply IH.
  - rewrite app_store.
    destruct req as [urandom item| |item_id|item_id item|item_id]; try done.
    + rewrite lookup_insert_ne; [done|].
      intros Heq. apply Hnew. rewrite Heq. by left.
    + destruct (db !! item_id) eqn:Hl; [|done].
      rewrite lookup_insert_ne; [done|]. congruence.
    + rewrite lookup_delete. by case_decide.
  - destruct req; try done. intros Hin. apply Hnew. by right.
Qed.

Lemma values_insert_None key stored (db : gmap string Item.t) :
  db !! key = None →
  (map_to_list (<[key := stored]> db)).*2 ≡ₚ stored :: (map_to_list db).*2.
Proof. intros Hout. by rewrite map_to_list_insert. Qed.

Lemma values_delete_Some key stored (db : gmap string Item.t) :
  db !! key = Some stored →
  (map_to_list db).*2 ≡ₚ stored :: (map_to_list (delete key db)).*2.
Proof. intros Hin. by rewrite <- (map_to_list_delete db key stored). Qed.

Lemma values_insert_Some key old stored (db : gmap string Item.t) :
  db !! key = Some old →
  (map_to_list (<[key := stored]> db)).*2
    ≡ₚ stored :: (map_to_list (delete key db)).*2.
Proof.
  intros Hin. rewrite <- insert_delete_eq.
  apply values_insert_None, lookup_delete_eq.
Qed.

Lemma size_serve history : (size (serve history ∅) ≤ POSTs history)%nat.
Proof.
  induction history as [|req history IH] using rev_ind.
  - unfold serve. simpl. by rewrite map_size_empty.
  - rewrite serve_snoc, app_store, POSTs_snoc.
    destruct req as [urandom item| |item_id|item_id item|item_id]; simpl.
    + rewrite map_size_insert.
      destruct (serve history ∅ !! new_id urandom); unfold id; lia.
    + lia.
    + lia.
    + destruct (serve history ∅ !! item_id) eqn:Hl; [|lia].
      rewrite map_size_insert, Hl. unfold id. lia.
    + rewrite map_size_delete.
      destruct (serve history ∅ !! item_id); unfold id; lia.
Qed.

(** ** Status codes, composition and locality *)

(** X1: no request is answered with 500: the subscript and the [del] are
    never reached on a missing key.  A request is answered with 404 exactly
    when its route has an [item_id] parameter that is not a key of the
    store, the answer then carries the fixed detail and the store is left
    as it was; every other answer carries the status of the decorator (201
    for POST, 204 for DELETE, 200 otherwise). *)
Theorem app_status_codes req (db : gmap string Item.t) :
  status_code (app req db).1 ≠ 500%nat ∧
  content (app req db).1 ≠ JServerError ∧
  (status_code (app req db).1 = 404%nat ↔
     ∃ item_id, path_id req = Some item_id ∧ db !! item_id = None) ∧
  (status_code (app req db).1 = 404%nat → app req db = (not_found, db)) ∧
  (status_code (app req db).1 ≠ 404%nat →
     status_code (app req db).1 =
       match req with
       | POST_items _ _ => 201
       | DELETE_item _ => 204
       | GET_items | GET_item _ | PUT_item _ _ => 200
       end%nat).
Proof.
  destruct req as [urandom item| |item_id|item_id item|item_id].
  - rewrite POST_items_eq. simpl.
    split_and!; try done. split; [done|]. by intros (key & [=] & _).
  - rewrite GET_items_eq. simpl.
    split_and!; try done. split; [done|]. by intros (key & [=] & _).
  - destruct (db !! item_id) as [stored|] eqn:Hl.
    + rewrite (GET_item_Some _ stored) by done. simpl.
      split_and!; try done. split; [done|]. intros (key & [= <-] & ?). congruence.
    + rewrite GET_item_None by done. simpl.
      split_and!; try done. split; [|done]. intros _. eauto.
  - destruct (db !! item_id) as [stored|] eqn:Hl.
    + rewrite PUT_item_Some by (rewrite Hl; eauto). simpl.
      split_and!; try done. split; [done|]. intros (key & [= <-] & ?). congruence.
    + rewrite PUT_item_None by done. simpl.
      split_and!; try done. split; [|done]. intros _. eauto.
  - destruct (db !! item_id) as [stored|] eqn:Hl.
    + rewrite DELETE_item_Some by (rewrite Hl; eauto). simpl.
      split_and!; try done. split; [done|]. intros (key & [= <-] & ?). congruence.
    + rewrite DELETE_item_None by done. simpl.
      split_and!; try done. split; [|done]. intros _. eauto.
Qed.

(** X2: [create_item] always returns, whatever the store holds: the record
    is filed under its id and no other key changes.  It does not look
    whether the id is already a key: when it is not, the listing gains the
    new record; when it is, the record stored there is replaced and the
    listing keeps its length. *)
Theorem create_item_overwrites urandom item (db : gmap string Item.t) :
  ∃ new_item db' items items',
    create_item urandom item db = (Return new_item, db') ∧
    db' !! Item.id new_item = Some new_item ∧
    (∀ key, key ≠ Item.id new_item → db' !! key = db !! key) ∧
    read_items db = (Return items, db) ∧
    read_items db' = (Return items', db') ∧
    match db !! Item.id new_item with
    | None => items' ≡ₚ new_item :: items
    | Some old =>
        ∃ rest, items ≡ₚ old :: rest ∧ items' ≡ₚ new_item :: rest ∧
                length items' = length items
    end.
Proof.
  eexists _, _, _, _. rewrite create_item_eq, !read_items_eq.
  split; [reflexivity|]. simpl.
  split; [apply lookup_insert_eq|].
  split; [intros key Hne; by apply lookup_insert_ne|].
  do 2 (split; [reflexivity|]).
  destruct (db !! new_id urandom) as [old|] eqn:Hl.
  - exists ((map_to_list (delete (new_id urandom) db)).*2).
    pose proof (values_delete_Some _ _ _ Hl) as Hold.
    pose proof (values_insert_Some _ _ (Item_from (new_id urandom) item) _ Hl) as Hnew.
    split; [exact Hold|]. split; [exact Hnew|].
    apply Permutation_length in Hold, Hnew. simpl in *. congruence.
  - by apply values_insert_None.
Qed.

(** X3: an update is invisible to a later update or delete of the same id:
    the later request is answered, and leaves the store, as if the earlier
    update had not been made, whether or not the id is stored.  In
    particular repeating an update changes nothing. *)
Theorem later_write_wins item_id item1 item2 (db : gmap string Item.t) :
  update_item item_id item2 (update_item item_id item1 db).2 =
    update_item item_id item2 db ∧
  delete_item item_id (update_item item_id item1 db).2 = delete_item item_id db ∧
  app (PUT_item item_id item2) (app (PUT_item item_id item1) db).2 =
    app (PUT_item item_id item2) db ∧
  app (DELETE_item item_id) (app (PUT_item item_id item1) db).2 =
    app (DELETE_item item_id) db ∧
  app (PUT_item item_id item1) (app (PUT_item item_id item1) db).2 =
    app (PUT_item item_id item1) db.
Proof.
  destruct (db !! item_id) as [stored|] eqn:Hl.
  - assert (Hin : is_Some (db !! item_id)) by (rewrite Hl; eauto).
    assert (Hin' : ∀ item, is_Some (<[item_id := Item_from item_id item]> db !! item_id))
      by (intros item; rewrite lookup_insert_eq; eauto).
    rewrite !(PUT_item_Some _ _ db), !(update_item_Some _ _ db) by done.
    cbn [snd].
    rewrite !PUT_item_Some, !update_item_Some, !DELETE_item_Some, !delete_item_Some
      by done.
    by rewrite !insert_insert_eq, !delete_insert_eq.
  - by rewrite !(PUT_item_None _ _ db), !(update_item_None _ _ db) by done.
Qed.

(** X4: deleting the record just created under an id that was not a key
    answers 204 and gives back the store as it was before the creation. *)
Theorem create_then_delete urandom item (db : gmap string Item.t) :
  db !! new_id urandom = None →
  ∃ new_item db',
    create_item urandom item db = (Return new_item, db') ∧
    delete_item (Item.id new_item) db' =
      (Return [("message", "Elemento eliminado exitosamente")], db) ∧
    app (DELETE_item (Item.id new_item)) db' =
      (mkResponse HTTP_204_NO_CONTENT
         (JObject [("message", "Elemento eliminado exitosamente")]), db).
Proof.
  intros Hout. eexists _, _. rewrite create_item_eq.
  split; [reflexivity|].
  change (Item.id (Item_from (new_id urandom) item)) with (new_id urandom).
  assert (Hin : is_Some (<[new_id urandom := Item_from (new_id urandom) item]> db
                           !! new_id urandom))
    by (rewrite lookup_insert_eq; eauto).
  rewrite delete_item_Some, DELETE_item_Some by done.
  by rewrite delete_insert_eq, delete_id.
Qed.

Lemma create_then_delete_witness :
  (serve [POST_items 7 pen] ∅ : gmap string Item.t) !! new_id 12345 = None ∧
  ∃ new_item db',
    create_item 12345 pen2 (serve [POST_items 7 pen] ∅) = (Return new_item, db') ∧
    (app (DELETE_item (Item.id new_item)) db').2 = serve [POST_items 7 pen] ∅.
Proof.
  assert (Hout : (serve [POST_items 7 pen] ∅ : gmap string Item.t)
                   !! new_id 12345 = None)
    by (vm_compute; reflexivity).
  split; [exact Hout|].
  destruct (create_then_delete 12345 pen2 _ Hout)
    as (new_item & db' & Hcreate & _ & Hdel).
  exists new_item, db'. split; [exact Hcreate|exact (f_equal snd Hdel)].
Defined.

(** X5: two requests that write under different keys do not see each other:
    each is answered the same whether the other was served before it or
    not, and in either order every key ends up holding the same record, so
    that every GET by id is answered the same and the two listings hold the
    same records (their order aside). *)
Theorem writes_on_different_keys_commute req1 req2 key1 key2
    (db : gmap string Item.t) :
  target req1 = Some key1 → target req2 = Some key2 → key1 ≠ key2 →
  (app req1 (app req2 db).2).1 = (app req1 db).1 ∧
  (app req2 (app req1 db).2).1 = (app req2 db).1 ∧
  (∀ key, serve [req1; req2] db !! key = serve [req2; req1] db !! key) ∧
  (∀ key,
     (app (GET_item key) (serve [req1; req2] db)).1 =
     (app (GET_item key) (serve [req2; req1] db)).1) ∧
  ∃ items12 items21,
    read_items (serve [req1; req2] db) = (Return items12, serve [req1; req2] db) ∧
    read_items (serve [req2; req1] db) = (Return items21, serve [req2; req1] db) ∧
    items12 ≡ₚ items21.
Proof.
  intros Ht1 Ht2 Hne.
  assert (Hother1 : ∀ any_db : gmap string Item.t,
            (app req1 any_db).2 !! key2 = any_db !! key2).
  { intros any_db. apply app_untouched. congruence. }
  assert (Hother2 : ∀ any_db : gmap string Item.t,
            (app req2 any_db).2 !! key1 = any_db !! key1).
  { intros any_db. apply app_untouched. congruence. }
  split; [by apply (app_local_response _ key1)|].
  split; [by apply (app_local_response _ key2)|].
  assert (Hlook : ∀ key,
            serve [req1; req2] db !! key = serve [req2; req1] db !! key).
  { intros key. rewrite !serve_cons. unfold serve. simpl.
    destruct (decide (key = key1)) as [->|Hk1];
      [|destruct (decide (key = key2)) as [->|Hk2]].
    - rewrite Hother2. by apply app_local_store.
    - rewrite Hother1. symmetry. by apply app_local_store.
    - by rewrite !app_untouched by congruence. }
  split; [exact Hlook|]. split.
  - intros key. specialize (Hlook key).
    destruct (serve [req1; req2] db !! key) as [stored|] eqn:Hl.
    + by rewrite !(GET_item_Some _ stored).
    + by rewrite !GET_item_None.
  - eexists _, _. rewrite !read_items_eq.
    do 2 (split; [reflexivity|]).
    by rewrite (map_eq _ _ Hlook).
Qed.

Lemma writes_on_different_keys_commute_witness :
  target (DELETE_item (new_id 7)) = Some (new_id 7) ∧
  target (POST_items 12345 pen2) = Some (new_id 12345) ∧
  new_id 7 ≠ new_id 12345 ∧
  ∀ key,
    serve [DELETE_item (new_id 7); POST_items 12345 pen2]
      (serve [POST_items 7 pen] ∅) !! key =
    serve [POST_items 12345 pen2; DELETE_item (new_id 7)]
      (serve [POST_items 7 pen] ∅) !! key.
Proof.
  assert (Hne : new_id 7 ≠ new_id 12345) by (vm_compute; discriminate).
  split; [reflexivity|]. split; [reflexivity|]. split; [exact Hne|].
  destruct (writes_on_different_keys_commute
              (DELETE_item (new_id 7)) (POST_items 12345 pen2)
              (new_id 7) (new_id 12345) (serve [POST_items 7 pen] ∅)
              eq_refl eq_refl Hne) as (_ & _ & Hlook & _).
  exact Hlook.
Defined.

(** X6: on a stored id, the listing after [update_item] is the listing
    before with the old record exchanged for the new one, and the listing
    after [delete_item] is the listing before without the old record; so an
    update keeps the number of listed records and a delete lowers it by
    one (up to order). *)
Theorem listing_after_write item_id old item (db : gmap string Item.t) :
  db !! item_id = Some old →
  ∃ items items_put items_del,
    read_items db = (Return items, db) ∧
    (read_items (update_item item_id item db).2).1 = Return items_put ∧
    (read_items (delete_item item_id db).2).1 = Return items_del ∧
    items ≡ₚ old :: items_del ∧
    items_put ≡ₚ Item_from item_id item :: items_del ∧
    length items_put = length items ∧
    S (length items_del) = length items.
Proof.
  intros Hold.
  assert (Hin : is_Some (db !! item_id)) by (rewrite Hold; eauto).
  eexists _, _, _.
  rewrite update_item_Some, delete_item_Some, !read_items_eq by done.
  do 3 (split; [reflexivity|]). cbn [snd].
  pose proof (values_delete_Some _ _ _ Hold) as Hdel.
  pose proof (values_insert_Some _ _ (Item_from item_id item) _ Hold) as Hput.
  split; [exact Hdel|]. split; [exact Hput|].
  apply Permutation_length in Hdel, Hput. simpl in *. split; congruence.
Qed.

Lemma listing_after_write_witness :
  serve [POST_items 7 pen] ∅ !! new_id 7 = Some (Item_from (new_id 7) pen) ∧
  ∃ items_put items_del : list Item.t,
    (read_items (update_item (new_id 7) pen2 (serve [POST_items 7 pen] ∅)).2).1
      = Return items_put ∧
    (read_items (delete_item (new_id 7) (serve [POST_items 7 pen] ∅)).2).1
      = Return items_del ∧
    items_put ≡ₚ Item_from (new_id 7) pen2 :: items_del.
Proof.
  assert (Hold : serve [POST_items 7 pen] ∅ !! new_id 7
                 = Some (Item_from (new_id 7) pen))
    by (vm_compute; reflexivity).
  split; [exact Hold|].
  destruct (listing_after_write (new_id 7) (Item_from (new_id 7) pen) pen2 _ Hold)
    as (items & items_put & items_del & _ & Hput & Hdel & _ & Hperm & _).
  exists items_put, items_del.
  split; [exact Hput|]. split; [exact Hdel|exact Hperm].
Defined.

(** X7: a key keeps what it holds, a record or nothing, through every
    sequence of requests none of which writes under that key; GET of it is
    answered afterwards as it was before. *)
Theorem record_persists later key (db : gmap string Item.t) :
  Forall (λ req, target req ≠ Some key) later →
  serve later db !! key = db !! key ∧
  (read_item key (serve later db)).1 = (read_item key db).1 ∧
  (app (GET_item key) (serve later db)).1 = (app (GET_item key) db).1.
Proof.
  intros Hlook%(serve_untouched _ _ db).
  split; [exact Hlook|].
  destruct (db !! key) as [stored|] eqn:Hl.
  - by rewrite !(read_item_Some _ stored), !(GET_item_Some _ stored).
  - by rewrite !read_item_None, !GET_item_None.
Qed.

Lemma record_persists_witness :
  Forall (λ req, target req ≠ Some (new_id 7))
    [POST_items 12345 pen2; GET_item (new_id 7); DELETE_item (new_id 12345)] ∧
  serve [POST_items 12345 pen2; GET_item (new_id 7); DELETE_item (new_id 12345)]
    (serve [POST_items 7 pen] ∅) !! new_id 7
  = serve [POST_items 7 pen] ∅ !! new_id 7.
Proof.
  assert (Hall : Forall (λ req, target req ≠ Some (new_id 7))
            [POST_items 12345 pen2; GET_item (new_id 7); DELETE_item (new_id 12345)]).
  { repeat apply Forall_cons_2; try apply Forall_nil_2;
      vm_compute; discriminate. }
  split; [exact Hall|].
  destruct (record_persists _ (new_id 7) (serve [POST_items 7 pen] ∅) Hall)
    as (Hlook & _).
  exact Hlook.
Defined.

(** X8: [update_item] never creates a record: an id that is not a key stays
    no key through every sequence of requests in which no creation draws
    it, updates and deletes of that very id included, and GET of it is
    answered with 404 afterwards. *)
Theorem absent_stays_absent later key (db : gmap string Item.t) :
  db !! key = None →
  key ∉ issued later →
  serve later db !! key = None ∧
  read_item key (serve later db) =
    (Raise (HTTPException HTTP_404_NOT_FOUND "Elemento no encontrado"),
     serve later db) ∧
  app (GET_item key) (serve later db) = (not_found, serve later db).
Proof.
  intros Hout Hnew. pose proof (serve_absent later key db Hout Hnew) as Hl.
  split; [exact Hl|].
  split; [by apply read_item_None|by apply GET_item_None].
Qed.

Lemma absent_stays_absent_witness :
  (app (DELETE_item (new_id 7)) (serve [POST_items 7 pen] ∅)).2 !! new_id 7 = None ∧
  (new_id 7 ∉ issued [PUT_item (new_id 7) pen2; POST_items 12345 pen]) ∧
  app (GET_item (new_id 7))
    (serve [PUT_item (new_id 7) pen2; POST_items 12345 pen]
       (app (DELETE_item (new_id 7)) (serve [POST_items 7 pen] ∅)).2)
  = (not_found,
     serve [PUT_item (new_id 7) pen2; POST_items 12345 pen]
       (app (DELETE_item (new_id 7)) (serve [POST_items 7 pen] ∅)).2).
Proof.
  assert (Hout : (app (DELETE_item (new_id 7)) (serve [POST_items 7 pen] ∅)).2
                   !! new_id 7 = None)
    by (vm_compute; reflexivity).
  assert (Hnew : new_id 7 ∉ issued [PUT_item (new_id 7) pen2; POST_items 12345 pen]).
  { vm_compute. intros Hin. apply list_elem_of_singleton in Hin. discriminate. }
  split; [exact Hout|]. split; [exact Hnew|].
  destruct (absent_stays_absent _ (new_id 7) _ Hout Hnew) as (_ & _ & Hget).
  exact Hget.
Defined.

(** X9: the listing holds one record per key of the store, and from the
    empty store never more records than there were creations, whatever else
    was requested and whatever [uuid4] drew. *)
Theorem listing_bounded_by_creations history :
  ∃ items,
    read_items (serve history ∅) = (Return items, serve history ∅) ∧
    app GET_items (serve history ∅) =
      (mkResponse HTTP_200_OK (JItems items), serve history ∅) ∧
    length items = size (serve history ∅) ∧
    (length items ≤ POSTs history)%nat.
Proof.
  eexists. rewrite read_items_eq, GET_items_eq.
  do 2 (split; [reflexivity|]).
  rewrite length_fmap, length_map_to_list.
  split; [reflexivity|apply size_serve].
Qed.
